(** * AngularRethinkDBObservable: a shallow embedding

    The development follows [src/app/ng-rethinkdb/src/RethinkDBObservable.ts].
    The class [AngularRethinkDBObservable<T>] extends the rxjs 5
    [BehaviorSubject<T[]>]; its fields and the fields it inherits are one
    record, its methods are computations in a small monad that threads the
    object, collects the calls made on external collaborators (observers,
    socket, [fetch]) and may finish by a JavaScript [throw]. *)

From stdpp Require Import base strings list gmap.

Local Open Scope string_scope.
Local Open Scope list_scope.
#[local] Set Warnings "-register-all".

(** ** Data *)

(** JSON values, as given to [JSON.stringify] and obtained from [JSON.parse]. *)
Inductive json : Type :=
  | JNull
  | JBool (b : bool)
  | JNum (n : Z)
  | JStr (s : string)
  | JArr (items : list json)
  | JObj (members : list (string * json)).

(** Modelled from the spec: [interfaces.ts] (the declaration of
    [IRethinkObject]) is not among the sources.  An entity carries the
    identifier field [id], which the handler compares with [===]; the other
    fields are passed through untouched. *)
Record IRethinkObject : Type := mkObject {
  id : string;
  fields : list (string * json)
}.

Definition object_json (o : IRethinkObject) : json :=
  JObj (("id", JStr (id o)) :: fields o).

(** Modelled from the spec: [IRethinkDBAPIConfig] is declared in
    [interfaces.ts]; the constructor reads [host] and [port], the commands
    read [database] and [api_key].  [port] is kept as the text that
    [':' + port] appends. *)
Record IRethinkDBAPIConfig : Type := mkConfig {
  host : option string;
  port : option string;
  database : string;
  api_key : string
}.

(** The message of the change feed once parsed:
    [{new_val: T, old_val: T, err?: string}].  [None] is a field that is
    missing or [null]. *)
Record ChangeData : Type := mkData {
  new_val : option IRethinkObject;
  old_val : option IRethinkObject;
  err : option string
}.

(** Values that are thrown, or handed to [error] and [Observable.throw]. *)
Inductive exn : Type :=
  | ErrNull                          (* [null], [thrownError] before any error *)
  | ErrValue (v : string)            (* a string used as the error, [data.err] *)
  | ObjectUnsubscribedError          (* rxjs, use of a closed subject *)
  | Error (message : string)         (* [new Error(message)] *)
  | TypeError (message : string)     (* a member read on [undefined] or [null] *)
  | SyntaxError (message : string).  (* [JSON.parse] on a text that is not JSON *)

Definition Observer : Type := nat.

(** The second argument of [fetch]; [body] is the value that
    [JSON.stringify] serialises. *)
Record RequestInit : Type := mkInit {
  method : string;
  body : json;
  headers : list (string * string)
}.

(** Calls on the collaborators, in the order they are made. *)
Inductive Effect : Type :=
  | Observer_next (o : Observer) (value : list IRethinkObject)
  | Observer_error (o : Observer) (e : exn)
  | Observer_complete (o : Observer)
  | Socket_io (url : string)
  | Socket_on (event : string)
  | Socket_emit (event : string) (payload : json)
  | Socket_disconnect
  | Fetch (url : string) (init : RequestInit).

(** The object: the fields of rxjs' [Subject] and [BehaviorSubject]
    ([observers], [hasError], [thrownError], [isStopped], [closed],
    [_value]) and the fields of the class.  [socket] is [None] until
    [_subscribe] assigns it; [query_] is the current value of [query$],
    [None] without a [query$]. *)
Record AngularRethinkDBObservable : Type := mkCollection {
  _value : list IRethinkObject;
  observers : list Observer;
  hasError : bool;
  thrownError : exn;
  isStopped : bool;
  closed : bool;
  API_URL : string;
  rethinkdbConfig : IRethinkDBAPIConfig;
  table : string;
  query_ : option json;
  socket : option string
}.

Definition set_value (v : list IRethinkObject) (s : AngularRethinkDBObservable) :=
  mkCollection v (observers s) (hasError s) (thrownError s) (isStopped s)
    (closed s) (API_URL s) (rethinkdbConfig s) (table s) (query_ s) (socket s).

Definition set_observers (os : list Observer) (s : AngularRethinkDBObservable) :=
  mkCollection (_value s) os (hasError s) (thrownError s) (isStopped s)
    (closed s) (API_URL s) (rethinkdbConfig s) (table s) (query_ s) (socket s).

Definition set_failed (e : exn) (s : AngularRethinkDBObservable) :=
  mkCollection (_value s) (observers s) true e true
    (closed s) (API_URL s) (rethinkdbConfig s) (table s) (query_ s) (socket s).

Definition set_closed (s : AngularRethinkDBObservable) :=
  mkCollection (_value s) [] (hasError s) (thrownError s) true
    true (API_URL s) (rethinkdbConfig s) (table s) (query_ s) (socket s).

Definition set_socket (url : string) (s : AngularRethinkDBObservable) :=
  mkCollection (_value s) (observers s) (hasError s) (thrownError s) (isStopped s)
    (closed s) (API_URL s) (rethinkdbConfig s) (table s) (query_ s) (Some url).

(** ** Computations *)

Inductive Outcome (A : Type) : Type :=
  | Returned (a : A) (s : AngularRethinkDBObservable) (log : list Effect)
  | Thrown (e : exn) (s : AngularRethinkDBObservable) (log : list Effect).
Arguments Returned {A} a s log.
Arguments Thrown {A} e s log.

Definition M (A : Type) : Type := AngularRethinkDBObservable → Outcome A.

Definition state_of {A} (r : Outcome A) : AngularRethinkDBObservable :=
  match r with Returned _ s _ | Thrown _ s _ => s end.

Definition log_of {A} (r : Outcome A) : list Effect :=
  match r with Returned _ _ l | Thrown _ _ l => l end.

Definition prepend_log {A} (l : list Effect) (r : Outcome A) : Outcome A :=
  match r with
  | Returned a s l' => Returned a s (l ++ l')
  | Thrown e s l' => Thrown e s (l ++ l')
  end.

#[export] Instance M_ret : MRet M := λ A a s, Returned a s [].

#[export] Instance M_bind : MBind M := λ A B f m s,
  match m s with
  | Returned a s' l => prepend_log l (f a s')
  | Thrown e s' l => Thrown e s' l
  end.

Definition throw {A} (e : exn) : M A := λ s, Thrown e s [].
Definition this : M AngularRethinkDBObservable := λ s, Returned s s [].
Definition assign (f : AngularRethinkDBObservable → AngularRethinkDBObservable) : M unit :=
  λ s, Returned () (f s) [].
Definition call (l : list Effect) : M unit := λ s, Returned () s l.

(** The object after a method ran, whether it returned or threw. *)
Definition exec {A} (m : M A) (s : AngularRethinkDBObservable) : AngularRethinkDBObservable :=
  state_of (m s).

(** ** rxjs 5: [Subject] and [BehaviorSubject]

    The base class is a dependency of the repository; these are the methods
    the class calls, written after rxjs 5 ([Subject.js],
    [BehaviorSubject.js]). *)

(** [get value()], i.e. [getValue()]. *)
Definition getValue : M (list IRethinkObject) :=
  s ← this;
  if hasError s then throw (thrownError s)
  else if closed s then throw ObjectUnsubscribedError
  else mret (_value s).

(** [next(value)]: [super.next(this._value = value)]. *)
Definition next (value : list IRethinkObject) : M unit :=
  assign (set_value value);;
  s ← this;
  if closed s then throw ObjectUnsubscribedError
  else if negb (isStopped s) then call ((λ o, Observer_next o value) <$> observers s)
  else mret ().

(** [error(err)]. *)
Definition error (e : exn) : M unit :=
  s ← this;
  if closed s then throw ObjectUnsubscribedError
  else
    assign (set_failed e);;
    call ((λ o, Observer_error o e) <$> observers s);;
    assign (set_observers []).

(** ** The change-feed handler *)

(** [!!x] on an optional object. *)
Definition truthy {A} (x : option A) : bool := bool_decide (is_Some x).

(** [!!x] on an optional string: the text when it is there and not the
    empty string. *)
Definition truthy_string (e : option string) : option string :=
  match e with
  | Some v => if decide (v = "") then None else Some v
  | None => None
  end.

(** The body of the handler below [const db = this.value]: the chain of
    tests on [data] that picks the call made on the subject. *)
Definition reconcile (db : list IRethinkObject) (data : ChangeData) : M unit :=
  if negb (truthy (old_val data)) && negb (truthy (new_val data))
     && bool_decide (0 < length db) then
    next []
  else if truthy_string (err data) is Some e then
    error (ErrValue e)
  else
    match old_val data, new_val data with
    | None, Some n =>
        next (n :: db)
    | Some o, Some n =>
        if bool_decide (0 < length (filter (λ object, id object = id n) db)) then
          next (filter (λ object, id object ≠ id o) db ++ [n])
        else mret ()
    | Some o, None =>
        next (filter (λ object, id object ≠ id o) db)
    | None, None => mret ()
    end.

(** [socketDataHandler(predata)], from [data = JSON.parse(predata)] on. *)
Definition socketDataHandler (data : ChangeData) : M unit :=
  db ← getValue;
  reconcile db data.

(** The messages of the channel, handled one after the other in arrival
    order. *)
Fixpoint feed (events : list ChangeData) (s : AngularRethinkDBObservable)
  : AngularRethinkDBObservable :=
  match events with
  | [] => s
  | data :: events => feed events (exec (socketDataHandler data) s)
  end.

(** ** The class *)

(** [constructor(rethinkdbConfig, table, query$?)]: [super([])] and the
    base address. *)
Definition constructor (rethinkdbConfig : IRethinkDBAPIConfig) (table : string)
    (query : option json) : AngularRethinkDBObservable :=
  {| _value := [];
     observers := [];
     hasError := false;
     thrownError := ErrNull;
     isStopped := false;
     closed := false;
     API_URL :=
       (if truthy_string (host rethinkdbConfig) is Some h then h else "")
       +:+ (if truthy_string (port rethinkdbConfig) is Some p then ":" +:+ p else "");
     rethinkdbConfig := rethinkdbConfig;
     table := table;
     query_ := query;
     socket := None |}.

(** A member that [JSON.stringify] leaves out when its value is [undefined]. *)
Definition optional_member (key : string) (v : option json) : list (string * json) :=
  if v is Some j then [(key, j)] else [].

Definition config_json (c : IRethinkDBAPIConfig) : json :=
  JObj (optional_member "host" (JStr <$> host c)
        ++ optional_member "port" (JStr <$> port c)
        ++ [("database", JStr (database c)); ("api_key", JStr (api_key c))]).

Inductive Subscription : Type :=
  | Subscription_EMPTY
  | SubjectSubscription (subscriber : Observer).

(** rxjs 5, [Subject.prototype._subscribe]. *)
Definition Subject_subscribe (subscriber : Observer) : M Subscription :=
  s ← this;
  if closed s then throw ObjectUnsubscribedError
  else if hasError s then
    call [Observer_error subscriber (thrownError s)];; mret Subscription_EMPTY
  else if isStopped s then
    call [Observer_complete subscriber];; mret Subscription_EMPTY
  else
    assign (set_observers (observers s ++ [subscriber]));;
    mret (SubjectSubscription subscriber).

(** rxjs 5, [BehaviorSubject.prototype._subscribe]. *)
Definition BehaviorSubject_subscribe (subscriber : Observer) : M Subscription :=
  subscription ← Subject_subscribe subscriber;
  match subscription with
  | SubjectSubscription _ =>
      s ← this; call [Observer_next subscriber (_value s)];; mret subscription
  | Subscription_EMPTY => mret subscription
  end.

(** [register(socket, dbApiConfig, query)], once the observable it returns
    is subscribed: the [register] message with
    [JSON.stringify([dbApiConfig, query])].  The acknowledgement comes back
    later, through a callback that only speaks to the subscriber of that
    observable. *)
Definition register (dbApiConfig : IRethinkDBAPIConfig) (query : json) : M unit :=
  call [Socket_emit "register" (JArr [config_json dbApiConfig; query])].

(** [_subscribe(subscriber)]: a socket on [API_URL], the handler on the
    table's channel, [register] with [{table, query}] for the current value
    of [query$], then [super._subscribe]. *)
Definition _subscribe (subscriber : Observer) : M Subscription :=
  s ← this;
  assign (set_socket (API_URL s));;
  call [Socket_io (API_URL s); Socket_on (table s)];;
  register (rethinkdbConfig s)
    (JObj (("table", JStr (table s)) :: optional_member "query" (query_ s)));;
  BehaviorSubject_subscribe subscriber.

(** [unsubscribe()]: [this.socket.disconnect()], then rxjs 5
    [Subject.prototype.unsubscribe]. *)
Definition unsubscribe : M unit :=
  s ← this;
  (if socket s is Some _ then call [Socket_disconnect]
   else throw (TypeError "Cannot read property 'disconnect' of undefined"));;
  assign set_closed.

(** ** Commands *)

(** What a command returns: [Observable.throw(e)], or the observable built
    on the promise of the [fetch] that was just issued. *)
Inductive Observable : Type :=
  | Observable_throw (e : exn)
  | Observable_fromPromise (url : string) (init : RequestInit).

Definition json_headers : list (string * string) :=
  [("Accept", "application/json, text/plain, */*");
   ("Content-Type", "application/json")].

(** [Observable.fromPromise(fetch(url, {method: 'POST', body, headers}))]:
    [fetch] runs when the command is called. *)
Definition post (url : string) (body : json) : M Observable :=
  let init := {| method := "POST"; body := body; headers := json_headers |} in
  call [Fetch url init];;
  mret (Observable_fromPromise url init).

Definition closed_message : string := "AngularRethinkDB has been closed.".

(** [push(newObject)]. *)
Definition push (newObject : json) : M Observable :=
  s ← this;
  if hasError s then mret (Observable_throw (thrownError s))
  else if closed s then mret (Observable_throw (Error closed_message))
  else
    post (API_URL s +:+ "/api/put")
      (JObj [("db", JStr (database (rethinkdbConfig s)));
             ("table", JStr (table s));
             ("api_key", JStr (api_key (rethinkdbConfig s)));
             ("object", newObject)]).

(** The argument of [remove]: [string | {indexName, indexValue}]. *)
Inductive Index : Type :=
  | Index_string (index : string)
  | Index_pair (indexName indexValue : string).

(** [remove(index)]. *)
Definition remove (index : Index) : M Observable :=
  s ← this;
  if hasError s then mret (Observable_throw (thrownError s))
  else if closed s then mret (Observable_throw (Error closed_message))
  else
    let body :=
      match index with
      | Index_string index =>
          JObj [("db", JStr (database (rethinkdbConfig s)));
                ("table", JStr (table s));
                ("api_key", JStr (api_key (rethinkdbConfig s)));
                ("query", JObj [("index", JStr "id"); ("value", JStr index)])]
      | Index_pair indexName indexValue =>
          JObj [("db", JStr (database (rethinkdbConfig s)));
                ("table", JStr (table s));
                ("api_key", JStr (api_key (rethinkdbConfig s)));
                ("query", JObj [("index", JStr indexName); ("value", JStr indexValue)])]
      end in
    post (API_URL s +:+ "/api/delete") body.

(** [update(updatedObj, query?)]. *)
Definition update (updatedObj : IRethinkObject) (query : option json) : M Observable :=
  s ← this;
  if hasError s then mret (Observable_throw (thrownError s))
  else if closed s then mret (Observable_throw (Error closed_message))
  else
    post (API_URL s +:+ "/api/update")
      (JObj ([("db", JStr (database (rethinkdbConfig s)));
              ("table", JStr (table s));
              ("api_key", JStr (api_key (rethinkdbConfig s)));
              ("object", object_json updatedObj)]
             ++ optional_member "query" query)).

(** The three mutation commands under one type. *)
Inductive Command : Type :=
  | Push (newObject : json)
  | Remove (index : Index)
  | Update (updatedObj : IRethinkObject) (query : option json).

Definition command (c : Command) : M Observable :=
  match c with
  | Push newObject => push newObject
  | Remove index => remove index
  | Update updatedObj query => update updatedObj query
  end.

(** Member [key] of a JSON object. *)
Definition member (key : string) (j : json) : option json :=
  if j is JObj members then
    '(_, kv) ← list_find (λ kv, fst kv = key) members; Some (snd kv)
  else None.

(** ** The change events by name

    The four shapes of a message and the error message, as the presence of
    [old_val], [new_val] and [err] tells them apart. *)
Definition Inserted (v : IRethinkObject) : ChangeData :=
  {| new_val := Some v; old_val := None; err := None |}.
Definition Updated (old new : IRethinkObject) : ChangeData :=
  {| new_val := Some new; old_val := Some old; err := None |}.
Definition Removed (old : IRethinkObject) : ChangeData :=
  {| new_val := None; old_val := Some old; err := None |}.
Definition Cleared : ChangeData :=
  {| new_val := None; old_val := None; err := None |}.
Definition Failed (e : string) : ChangeData :=
  {| new_val := None; old_val := None; err := Some e |}.

(** The identifiers of a snapshot, in order. *)
Definition ids (db : list IRethinkObject) : list string := id <$> db.

(** The subject can be read: it has neither failed nor been closed. *)
Definition readable (s : AngularRethinkDBObservable) : Prop :=
  hasError s = false ∧ closed s = false.

(** What [next] publishes: nothing once the subject is stopped. *)
Definition published (value : list IRethinkObject) (s : AngularRethinkDBObservable)
  : list Effect :=
  if isStopped s then [] else (λ o, Observer_next o value) <$> observers s.

(** ** Discipline of a feed and its net effect *)

(** The message respects the identifiers of the snapshot [db]: an insert
    brings an identifier that [db] does not hold, an update keeps the
    identifier of the entity it replaces. *)
Definition disciplined_at (db : list IRethinkObject) (data : ChangeData) : bool :=
  match old_val data, new_val data with
  | None, Some n => bool_decide (id n ∉ ids db)
  | Some o, Some n => bool_decide (id o = id n)
  | _, _ => true
  end.

(** Every message of the feed respects the snapshot it arrives on. *)
Fixpoint disciplined (events : list ChangeData) (s : AngularRethinkDBObservable) : bool :=
  match events with
  | [] => true
  | data :: events =>
      disciplined_at (_value s) data
      && disciplined events (exec (socketDataHandler data) s)
  end.

(** The net effect of a feed without errors on the set of identifiers: an
    insert brings its identifier in, a removal takes its identifier out, an
    update of an identifier that is held takes [old.id] out and brings
    [new.id] in, a message without values empties the set. *)
Definition net_step (present : gset string) (data : ChangeData) : gset string :=
  match old_val data, new_val data with
  | None, Some n => {[id n]} ∪ present
  | Some o, Some n =>
      if decide (id n ∈ present) then {[id n]} ∪ (present ∖ {[id o]}) else present
  | Some o, None => present ∖ {[id o]}
  | None, None => ∅
  end.

Definition net_ids (events : list ChangeData) : gset string :=
  foldl net_step ∅ events.

(** The message carries no error. *)
Definition error_free (data : ChangeData) : Prop := truthy_string (err data) = None.

(** ** Sample objects *)

Definition sample_config : IRethinkDBAPIConfig :=
  {| host := Some "http://localhost"; port := Some "3200";
     database := "app"; api_key := "AAAA-BBBBB-CCCCC" |}.

Definition sample_a1 : IRethinkObject := {| id := "a"; fields := [("v", JNum 1)] |}.
Definition sample_a2 : IRethinkObject := {| id := "a"; fields := [("v", JNum 2)] |}.
Definition sample_b1 : IRethinkObject := {| id := "b"; fields := [("v", JNum 1)] |}.
Definition sample_b2 : IRethinkObject := {| id := "b"; fields := [("v", JNum 2)] |}.

(** A collection just built, and the same with one subscriber. *)
Definition sample_new : AngularRethinkDBObservable :=
  constructor sample_config "myTable" None.
Definition sample_live : AngularRethinkDBObservable :=
  exec (_subscribe 0) sample_new.

(** ** Several subscribers *)

(** [_subscribe] for each subscriber in turn, as long as none of the calls
    throws. *)
Fixpoint subscribe_all (subscribers : list Observer) : M unit :=
  match subscribers with
  | [] => mret ()
  | subscriber :: subscribers => _subscribe subscriber;; subscribe_all subscribers
  end.

(** The sockets opened ([io(url)]) among the calls of a log. *)
Fixpoint sockets_opened (log : list Effect) : list string :=
  match log with
  | [] => []
  | Socket_io url :: log => url :: sockets_opened log
  | _ :: log => sockets_opened log
  end.

(** The path of the endpoint a command posts to. *)
Definition endpoint (c : Command) : string :=
  match c with
  | Push _ => "/api/put"
  | Remove _ => "/api/delete"
  | Update _ _ => "/api/update"
  end.

(** ** The handler from the text it receives

    [JSON.parse(predata)] is a built-in: what is kept of it is what the
    handler can see of its result.  The text is not JSON and [JSON.parse]
    throws a [SyntaxError]; or it is the text [null]; or it is any other
    value, read at the type the handler declares,
    [{new_val: T, old_val: T, err?: string}] (a number, a string, a boolean
    or an array has none of the three members). *)
Inductive Parsed : Type :=
  | Parsed_SyntaxError (message : string)
  | Parsed_null
  | Parsed_object (data : ChangeData).

(** [socketDataHandler(predata)] from its first line: line 41 parses, line
    44 reads [this.value], line 47 reads [data.old_val], which throws a
    [TypeError] on [null]. *)
Definition socketDataHandler_predata (predata : Parsed) : M unit :=
  match predata with
  | Parsed_SyntaxError message => throw (SyntaxError message)
  | Parsed_null =>
      db ← getValue;
      throw (TypeError "Cannot read property 'old_val' of null")
  | Parsed_object data => socketDataHandler data
  end.

(** * Properties *)

(** ** Running the subject's methods *)

(** Unfolds the plumbing of [M] in the goal. *)
Ltac run_M :=
  unfold post, assign, this, call, throw, mbind, M_bind, mret, M_ret; simpl.

Lemma prepend_log_nil {A} (r : Outcome A) : prepend_log [] r = r.
Proof. by destruct r. Qed.

Lemma next_open value s :
  closed s = false →
  next value s = Returned () (set_value value s) (published value s).
Proof.
  intros Hclosed. unfold next, published; run_M.
  rewrite Hclosed. destruct (isStopped s); simpl; by rewrite ?app_nil_r.
Qed.

Lemma error_open e s :
  closed s = false →
  error e s = Returned () (set_observers [] (set_failed e s))
                ((λ o, Observer_error o e) <$> observers s).
Proof.
  intros Hclosed. unfold error; run_M.
  rewrite Hclosed; simpl. by rewrite app_nil_r.
Qed.

(** *** On a collection that can be read *)

Section readable.
Context (s : AngularRethinkDBObservable) (Hs : readable s).

Lemma getValue_readable : getValue s = Returned (_value s) s [].
Proof.
  destruct Hs as [Herr Hclosed]. unfold getValue; run_M.
  by rewrite Herr, Hclosed.
Qed.

Lemma socketDataHandler_readable data :
  socketDataHandler data s = reconcile (_value s) data s.
Proof.
  unfold socketDataHandler, mbind, M_bind.
  by rewrite getValue_readable, prepend_log_nil.
Qed.

Lemma readable_set_value value : readable (set_value value s).
Proof. by destruct Hs. Qed.

(** The message that inserts. *)
Lemma socketDataHandler_Inserted v :
  socketDataHandler (Inserted v) s
  = Returned () (set_value ([v] ++ _value s) s) (published ([v] ++ _value s) s).
Proof.
  rewrite socketDataHandler_readable.
  unfold reconcile; simpl. by rewrite next_open by apply Hs.
Qed.

(** The messages on which the test of [err] is reached and succeeds. *)
Lemma socketDataHandler_err data e :
  err data = Some e → e ≠ "" →
  is_Some (old_val data) ∨ is_Some (new_val data) ∨ _value s = [] →
  socketDataHandler data s
  = Returned () (set_observers [] (set_failed (ErrValue e) s))
      ((λ o, Observer_error o (ErrValue e)) <$> observers s).
Proof.
  intros Herr He Hval.
  rewrite socketDataHandler_readable. unfold reconcile.
  replace (negb (truthy (old_val data)) && negb (truthy (new_val data))
           && bool_decide (0 < length (_value s))) with false.
  - rewrite Herr; simpl. rewrite decide_False by done.
    by rewrite error_open by apply Hs.
  - destruct Hval as [[o Ho]|[[n Hn]|Hnil]].
    + by rewrite Ho.
    + rewrite Hn. by destruct (old_val data).
    + rewrite Hnil; simpl. by rewrite andb_false_r.
Qed.

End readable.

(** *** On a collection that recorded an error *)

Lemma getValue_failed s :
  hasError s = true → getValue s = Thrown (thrownError s) s [].
Proof. intros Herr. unfold getValue; run_M. by rewrite Herr. Qed.

Lemma socketDataHandler_failed s data :
  hasError s = true → socketDataHandler data s = Thrown (thrownError s) s [].
Proof.
  intros Herr. unfold socketDataHandler, mbind, M_bind.
  by rewrite getValue_failed.
Qed.

(** ** Snapshots and identifiers *)

Lemma matching_nonempty (db : list IRethinkObject) (i : string) :
  0 < length (filter (λ object, id object = i) db) ↔ i ∈ ids db.
Proof.
  unfold ids. rewrite list_elem_of_fmap. split.
  - destruct (filter _ db) as [|x l] eqn:Hf; simpl; [lia|]. intros _.
    assert (Hx : x ∈ filter (λ object, id object = i) db) by (rewrite Hf; left).
    apply list_elem_of_filter in Hx as [Hi Hx]. eauto.
  - intros (x & -> & Hx).
    assert (Hin : x ∈ filter (λ object, id object = id x) db)
      by by apply list_elem_of_filter.
    destruct (filter _ db); [by apply elem_of_nil in Hin | simpl; lia].
Qed.

Lemma ids_filter_ne (db : list IRethinkObject) (i : string) :
  ids (filter (λ object, id object ≠ i) db) = filter (λ j, j ≠ i) (ids db).
Proof.
  unfold ids. induction db as [|x db IH]; [done|].
  rewrite filter_cons, fmap_cons, filter_cons.
  destruct (decide (id x ≠ i)); [rewrite fmap_cons|]; by rewrite IH.
Qed.

Lemma filter_absent (db : list IRethinkObject) (i : string) :
  i ∉ ids db → filter (λ object, id object ≠ i) db = db.
Proof.
  unfold ids. induction db as [|x db IH]; [done|].
  rewrite fmap_cons, not_elem_of_cons. intros [Hx Hdb].
  rewrite filter_cons_True by done. by rewrite IH.
Qed.

(** ** The handler, message by message *)

(** C7. On a collection that can be read, [Inserted v] publishes
    [[v] ++ snapshot]: the new entity comes first and the entities already
    there follow in their previous order; nothing else of the object
    changes. *)
Theorem inserted_prepends s v :
  readable s →
  _value (exec (socketDataHandler (Inserted v)) s) = [v] ++ _value s
  ∧ socketDataHandler (Inserted v) s
    = Returned () (set_value ([v] ++ _value s) s) (published ([v] ++ _value s) s).
Proof.
  intros Hs. unfold exec. by rewrite socketDataHandler_Inserted.
Qed.

Lemma inserted_prepends_witness :
  let s := feed [Inserted sample_a1; Inserted sample_b1] sample_live in
  readable s
  ∧ _value s = [sample_b1; sample_a1]
  ∧ _value (exec (socketDataHandler (Inserted sample_a2)) s)
    = [sample_a2; sample_b1; sample_a1].
Proof.
  intros s.
  assert (Hs : readable s) by done.
  split_and!; [exact Hs | reflexivity |].
  exact (proj1 (inserted_prepends s sample_a2 Hs)).
Defined.

(** C8. On a collection that can be read, [Cleared] leaves the empty
    snapshot: a snapshot that is not empty is replaced by [[]], an empty one
    is left alone (nothing is published); handling [Cleared] twice is
    handling it once. *)
Theorem cleared_empties s :
  readable s →
  _value (exec (socketDataHandler Cleared) s) = []
  ∧ (_value s ≠ [] →
     socketDataHandler Cleared s = Returned () (set_value [] s) (published [] s))
  ∧ (_value s = [] → socketDataHandler Cleared s = Returned () s [])
  ∧ exec (socketDataHandler Cleared) (exec (socketDataHandler Cleared) s)
    = exec (socketDataHandler Cleared) s.
Proof.
  intros Hs.
  assert (Hfull : _value s ≠ [] →
    socketDataHandler Cleared s = Returned () (set_value [] s) (published [] s)).
  { intros Hne. rewrite socketDataHandler_readable by done.
    unfold reconcile; simpl. rewrite bool_decide_eq_true_2.
    - by rewrite next_open by apply Hs.
    - destruct (_value s); [done | simpl; lia]. }
  assert (Hempty : ∀ s', readable s' → _value s' = [] →
    socketDataHandler Cleared s' = Returned () s' []).
  { intros s' Hs' Hnil. rewrite socketDataHandler_readable by done.
    unfold reconcile. by rewrite Hnil. }
  assert (Hvalue : _value (exec (socketDataHandler Cleared) s) = []).
  { unfold exec. destruct (decide (_value s = [])) as [Hdb|Hdb].
    - by rewrite Hempty.
    - by rewrite Hfull. }
  split_and!; [done | done | by apply Hempty |].
  unfold exec at 1. rewrite Hempty; [done | | done].
  unfold exec. destruct (decide (_value s = [])) as [Hdb|Hdb].
  - by rewrite Hempty.
  - rewrite Hfull by done. by apply readable_set_value.
Qed.

Lemma cleared_empties_witness :
  readable (exec (socketDataHandler (Inserted sample_a1)) sample_live)
  ∧ _value (exec (socketDataHandler Cleared)
              (exec (socketDataHandler (Inserted sample_a1)) sample_live)) = [].
Proof.
  assert (Hs : readable (exec (socketDataHandler (Inserted sample_a1)) sample_live))
    by done.
  split; [exact Hs|]. exact (proj1 (cleared_empties _ Hs)).
Defined.

(** C9. On a collection that can be read and whose snapshot holds no entity
    with the identifier of [new], [Updated old new] is a no-op: the handler
    returns, the object is unchanged and nothing is published. *)
Theorem updated_unknown_noop s old new :
  readable s →
  (∀ object, object ∈ _value s → id object ≠ id new) →
  _value (exec (socketDataHandler (Updated old new)) s) = _value s
  ∧ socketDataHandler (Updated old new) s = Returned () s [].
Proof.
  intros Hs Hnew.
  assert (Hrun : socketDataHandler (Updated old new) s = Returned () s []).
  { rewrite socketDataHandler_readable by done.
    unfold reconcile; simpl. rewrite bool_decide_eq_false_2; [done|].
    rewrite matching_nonempty. unfold ids. rewrite list_elem_of_fmap.
    intros (x & Hid & Hx). by apply (Hnew x). }
  unfold exec. by rewrite Hrun.
Qed.

Lemma updated_unknown_noop_witness :
  let s := feed [Inserted sample_a1] sample_live in
  readable s
  ∧ _value s = [sample_a1]
  ∧ (∀ object, object ∈ _value s → id object ≠ id sample_b2)
  ∧ socketDataHandler (Updated sample_a1 sample_b2) s = Returned () s []
  ∧ _value (exec (socketDataHandler (Updated sample_a1 sample_b2)) s) = [sample_a1].
Proof.
  intros s.
  assert (Hs : readable s) by done.
  assert (Hnew : ∀ object, object ∈ _value s → id object ≠ id sample_b2).
  { intros object Hin. vm_compute in Hin.
    apply list_elem_of_singleton in Hin as ->. vm_compute. discriminate. }
  pose proof (updated_unknown_noop s sample_a1 sample_b2 Hs Hnew) as [Hvalue Hrun].
  split_and!; [exact Hs | reflexivity | exact Hnew | exact Hrun | exact Hvalue].
Defined.

(** C1, as amended. On a collection that can be read and whose snapshot
    holds an entity with the identifier of [new], [Updated old new]
    publishes the snapshot without the entities that have the identifier of
    [old], followed by [new]: the existence test reads [new.id], the filter
    reads [old.id], and the updated entity is placed at the end. *)
Theorem updated_replaces s old new :
  readable s →
  (∃ object, object ∈ _value s ∧ id object = id new) →
  let db' := filter (λ object, id object ≠ id old) (_value s) ++ [new] in
  _value (exec (socketDataHandler (Updated old new)) s) = db'
  ∧ socketDataHandler (Updated old new) s
    = Returned () (set_value db' s) (published db' s).
Proof.
  intros Hs (x & Hx & Hid) db'.
  assert (Hrun : socketDataHandler (Updated old new) s
                 = Returned () (set_value db' s) (published db' s)).
  { rewrite socketDataHandler_readable by done.
    unfold reconcile; simpl. rewrite bool_decide_eq_true_2.
    - by rewrite next_open by apply Hs.
    - rewrite matching_nonempty. unfold ids. rewrite list_elem_of_fmap. eauto. }
  unfold exec. by rewrite Hrun.
Qed.

Lemma updated_replaces_witness :
  let s := feed [Inserted sample_a1; Inserted sample_b1] sample_live in
  readable s
  ∧ (∃ object, object ∈ _value s ∧ id object = id sample_b2)
  ∧ _value (exec (socketDataHandler (Updated sample_b1 sample_b2)) s)
    = [sample_a1; sample_b2].
Proof.
  intros s.
  assert (Hs : readable s) by done.
  assert (Hin : ∃ object, object ∈ _value s ∧ id object = id sample_b2).
  { exists sample_b1. split; [left | done]. }
  split_and!; [exact Hs | exact Hin |].
  exact (proj1 (updated_replaces s sample_b1 sample_b2 Hs Hin)).
Defined.

(** C1, counterexample. With the snapshot [[b1; a1]], [Updated b1 b2] gives
    [[a1; b2]], not [[b2] ++ [a1]]: the updated entity is not at the front. *)
Lemma updated_not_at_front :
  let s := feed [Inserted sample_a1; Inserted sample_b1] sample_live in
  readable s
  ∧ (∃ object, object ∈ _value s ∧ id object = id sample_b2)
  ∧ _value (exec (socketDataHandler (Updated sample_b1 sample_b2)) s)
    ≠ [sample_b2] ++ filter (λ object, id object ≠ id sample_b1) (_value s).
Proof.
  intros s. split_and!; [done | |].
  - exists sample_b1. split; [left | done].
  - vm_compute. discriminate.
Qed.

(** C5, as amended. On a collection that can be read and whose snapshot
    holds no entity with the identifier of [v], [Inserted v] followed at
    once by [Removed v] gives back the snapshot, and the whole object. *)
Theorem insert_remove_roundtrip s v :
  readable s →
  (∀ object, object ∈ _value s → id object ≠ id v) →
  _value (feed [Inserted v; Removed v] s) = _value s
  ∧ feed [Inserted v; Removed v] s = s.
Proof.
  intros Hs Hfresh.
  assert (Hback : feed [Inserted v; Removed v] s = s).
  { simpl. unfold exec at 2.
    rewrite socketDataHandler_Inserted by done; simpl.
    unfold exec. rewrite socketDataHandler_readable by by apply readable_set_value.
    unfold reconcile; simpl. rewrite next_open by apply Hs; simpl.
    rewrite filter_cons_False by (intros Hne; by apply Hne).
    rewrite filter_absent.
    - by destruct s.
    - unfold ids. rewrite list_elem_of_fmap. intros (x & Hid & Hx). by apply (Hfresh x). }
  by rewrite Hback.
Qed.

Lemma insert_remove_roundtrip_witness :
  let s := feed [Inserted sample_b1] sample_live in
  readable s
  ∧ (∀ object, object ∈ _value s → id object ≠ id sample_a1)
  ∧ _value (feed [Inserted sample_a1; Removed sample_a1] s) = [sample_b1].
Proof.
  intros s.
  assert (Hs : readable s) by done.
  assert (Hfresh : ∀ object, object ∈ _value s → id object ≠ id sample_a1).
  { intros object Hin. vm_compute in Hin.
    apply list_elem_of_singleton in Hin as ->. vm_compute. discriminate. }
  split_and!; [exact Hs | exact Hfresh |].
  exact (proj1 (insert_remove_roundtrip s sample_a1 Hs Hfresh)).
Defined.

(** C5, counterexample. On the snapshot [[a1]], [Inserted a2] then
    [Removed a2], where [a2] has the identifier of [a1], leaves the empty
    snapshot: the filter of the removal takes [a1] away too. *)
Lemma insert_remove_not_roundtrip :
  let s := feed [Inserted sample_a1] sample_live in
  readable s
  ∧ _value s = [sample_a1]
  ∧ _value (feed [Inserted sample_a2; Removed sample_a2] s) = []
  ∧ _value (feed [Inserted sample_a2; Removed sample_a2] s) ≠ _value s.
Proof. intros s. split_and!; [done | done | done |]. vm_compute. discriminate. Qed.

(** ** Errors of the feed *)

(** C10, as amended. On a collection that can be read, a message whose
    [err] is a string other than the empty one and which carries [old_val]
    or [new_val] is handled as an error and by no value-based case: [error]
    is called with [err], every observer receives it, the subject records
    it, and the snapshot is unchanged. *)
Theorem error_before_values s data e :
  readable s →
  err data = Some e → e ≠ "" →
  is_Some (old_val data) ∨ is_Some (new_val data) →
  let s' := exec (socketDataHandler data) s in
  socketDataHandler data s
  = Returned () (set_observers [] (set_failed (ErrValue e) s))
      ((λ o, Observer_error o (ErrValue e)) <$> observers s)
  ∧ hasError s' = true ∧ thrownError s' = ErrValue e ∧ _value s' = _value s.
Proof.
  intros Hs Herr He Hval s'.
  assert (Hrun : socketDataHandler data s
    = Returned () (set_observers [] (set_failed (ErrValue e) s))
        ((λ o, Observer_error o (ErrValue e)) <$> observers s))
    by (apply socketDataHandler_err; tauto).
  subst s'. unfold exec. by rewrite Hrun.
Qed.

Lemma error_before_values_witness :
  let data := {| new_val := Some sample_a1; old_val := None; err := Some "boom" |} in
  readable sample_live
  ∧ hasError (exec (socketDataHandler data) sample_live) = true
  ∧ _value (exec (socketDataHandler data) sample_live) = _value sample_live.
Proof.
  intros data.
  assert (Hs : readable sample_live) by done.
  assert (He : "boom" ≠ "") by discriminate.
  assert (Hval : is_Some (old_val data) ∨ is_Some (new_val data)) by (right; eexists; reflexivity).
  pose proof (error_before_values sample_live data "boom" Hs eq_refl He Hval) as H.
  split_and!; [exact Hs | exact (proj1 (proj2 H)) | exact (proj2 (proj2 (proj2 H)))].
Defined.

(** C10, counterexample. A message that carries [new_val] together with
    [err: ""] is handled as an insert: no error is raised and the snapshot
    changes. *)
Lemma empty_err_is_an_insert :
  let data := {| new_val := Some sample_a1; old_val := None; err := Some "" |} in
  readable sample_live
  ∧ is_Some (err data) ∧ is_Some (new_val data)
  ∧ socketDataHandler data sample_live = socketDataHandler (Inserted sample_a1) sample_live
  ∧ hasError (exec (socketDataHandler data) sample_live) = false
  ∧ _value (exec (socketDataHandler data) sample_live) ≠ _value sample_live.
Proof.
  intros data. split_and!; [done | by eexists | by eexists | done | done |].
  vm_compute. discriminate.
Qed.

(** Once an error is recorded the handler throws it before it reads or
    writes anything: no message changes the object any more. *)
Lemma feed_failed events s : hasError s = true → feed events s = s.
Proof.
  intros Herr. induction events as [|data events IH]; [done|].
  simpl. unfold exec. by rewrite socketDataHandler_failed.
Qed.

(** A subscriber that arrives after the error receives it at once. *)
Lemma subscribe_failed subscriber s :
  hasError s = true → closed s = false →
  Observer_error subscriber (thrownError s) ∈ log_of (_subscribe subscriber s).
Proof.
  intros Herr Hclosed.
  unfold _subscribe, register, BehaviorSubject_subscribe, Subject_subscribe; run_M.
  rewrite Hclosed, Herr; simpl. set_solver.
Qed.

(** When the test of [err] is reached.  On a collection that can be read, a
    message whose [err] is a string other than the empty one raises that
    error as the terminal error of the stream whenever it carries [old_val]
    or [new_val] or the snapshot is empty: the snapshot is not changed by
    it, every observer of the moment receives the error, no later message
    changes the snapshot (each one makes the handler throw the recorded
    error), and every later subscriber receives the error. *)
Theorem failed_is_terminal s data e :
  readable s →
  err data = Some e → e ≠ "" →
  is_Some (old_val data) ∨ is_Some (new_val data) ∨ _value s = [] →
  let s' := exec (socketDataHandler data) s in
  hasError s' = true ∧ thrownError s' = ErrValue e ∧ _value s' = _value s
  ∧ (∀ o, o ∈ observers s → Observer_error o (ErrValue e) ∈ log_of (socketDataHandler data s))
  ∧ (∀ later, socketDataHandler later s' = Thrown (ErrValue e) s' [])
  ∧ (∀ events, feed events s' = s')
  ∧ (∀ events subscriber,
       Observer_error subscriber (ErrValue e)
       ∈ log_of (_subscribe subscriber (feed events s'))).
Proof.
  intros Hs Herr He Hval s'.
  assert (Hrun : socketDataHandler data s
    = Returned () (set_observers [] (set_failed (ErrValue e) s))
        ((λ o, Observer_error o (ErrValue e)) <$> observers s))
    by by apply socketDataHandler_err.
  assert (Hs' : s' = set_observers [] (set_failed (ErrValue e) s))
    by (subst s'; unfold exec; by rewrite Hrun).
  assert (Hfailed : hasError s' = true) by by rewrite Hs'.
  assert (Hthrown : thrownError s' = ErrValue e) by by rewrite Hs'.
  assert (Hopen : closed s' = false) by (rewrite Hs'; apply Hs).
  split_and!; [done | done | by rewrite Hs' | | | |].
  - intros o Ho. rewrite Hrun; simpl. apply list_elem_of_fmap. eauto.
  - intros later. by rewrite socketDataHandler_failed, Hthrown.
  - intros events. by apply feed_failed.
  - intros events subscriber. rewrite feed_failed by done.
    rewrite <- Hthrown. by apply subscribe_failed.
Qed.

Lemma failed_is_terminal_witness :
  readable sample_live
  ∧ hasError (exec (socketDataHandler (Failed "boom")) sample_live) = true
  ∧ feed [Inserted sample_a1] (exec (socketDataHandler (Failed "boom")) sample_live)
    = exec (socketDataHandler (Failed "boom")) sample_live.
Proof.
  assert (Hs : readable sample_live) by done.
  assert (He : "boom" ≠ "") by discriminate.
  assert (Hval : is_Some (old_val (Failed "boom")) ∨ is_Some (new_val (Failed "boom"))
                 ∨ _value sample_live = []) by (right; right; reflexivity).
  pose proof (failed_is_terminal sample_live (Failed "boom") "boom" Hs eq_refl He Hval)
    as (Hfailed & _ & _ & _ & _ & Hfeed & _).
  split_and!; [exact Hs | exact Hfailed | exact (Hfeed [Inserted sample_a1])].
Defined.

(** When the test of [err] is not reached.  On a collection that can be
    read and whose snapshot is not empty, a message that carries [err] and
    neither [old_val] nor [new_val] meets the clearing test first, whatever
    the error: [next([])] is called, [error] is not, and no error is
    recorded. *)
Lemma failed_swallowed s e :
  readable s → _value s ≠ [] →
  socketDataHandler (Failed e) s = Returned () (set_value [] s) (published [] s)
  ∧ hasError (exec (socketDataHandler (Failed e)) s) = false
  ∧ readable (exec (socketDataHandler (Failed e)) s).
Proof.
  intros Hs Hne.
  assert (Hrun : socketDataHandler (Failed e) s
                 = Returned () (set_value [] s) (published [] s)).
  { rewrite socketDataHandler_readable by done. unfold reconcile; simpl.
    rewrite bool_decide_eq_true_2 by (destruct (_value s); [done | simpl; lia]).
    by rewrite next_open by apply Hs. }
  unfold exec. rewrite Hrun; simpl. split_and!; [done | apply Hs | by destruct Hs].
Qed.

(** C3. The code on the failing input: a change event whose [err] is
    present does not raise that error when it arrives on a snapshot that is
    not empty.  On the snapshot [[a1]] the message [{err: "boom"}] meets the
    test of the clearing case first: the snapshot becomes [[]], the observer
    receives [[]] and no error, and nothing is recorded, so that the next
    message is handled as usual. *)
Lemma failed_clears_instead :
  let s := feed [Inserted sample_a1] sample_live in
  let s' := exec (socketDataHandler (Failed "boom")) s in
  readable s
  ∧ _value s = [sample_a1]
  ∧ socketDataHandler (Failed "boom") s = Returned () (set_value [] s) [Observer_next 0 []]
  ∧ hasError s' = false
  ∧ _value s' ≠ _value s
  ∧ _value (feed [Inserted sample_b1] s') = [sample_b1].
Proof.
  intros s s'. split_and!; [done | done | done | done | | done].
  vm_compute. discriminate.
Qed.

(** ** Commands *)

(** C4, as amended. A command issued on a collection that recorded an error
    returns [Observable.throw] of the recorded error, closed or not; a
    command issued on a closed collection that recorded no error returns
    [Observable.throw] of the channel-closed error.  In both cases [fetch]
    is not called and the object is unchanged. *)
Theorem commands_fail_fast s c :
  (hasError s = true →
   command c s = Returned (Observable_throw (thrownError s)) s [])
  ∧ (hasError s = false → closed s = true →
     command c s = Returned (Observable_throw (Error closed_message)) s []).
Proof.
  split.
  - intros Herr.
    destruct c; simpl; unfold push, remove, update; run_M; by rewrite Herr.
  - intros Herr Hclosed.
    destruct c; simpl; unfold push, remove, update; run_M; by rewrite Herr, Hclosed.
Qed.

Lemma commands_fail_fast_witness :
  let failed := exec (socketDataHandler (Failed "boom")) sample_live in
  let shut := exec unsubscribe sample_live in
  command (Push (object_json sample_a1)) failed
  = Returned (Observable_throw (ErrValue "boom")) failed []
  ∧ command (Remove (Index_string "a")) shut
    = Returned (Observable_throw (Error closed_message)) shut [].
Proof.
  intros failed shut. split.
  - exact (proj1 (commands_fail_fast failed (Push (object_json sample_a1))) eq_refl).
  - exact (proj2 (commands_fail_fast shut (Remove (Index_string "a"))) eq_refl eq_refl).
Defined.

(** C4, counterexample. A collection that recorded the error ["boom"] and
    was then unsubscribed is closed, and [push] on it returns
    [Observable.throw] of ["boom"], not of the channel-closed error. *)
Lemma closed_after_error_rethrows :
  let s := exec unsubscribe (exec (socketDataHandler (Failed "boom")) sample_live) in
  closed s = true
  ∧ command (Push (object_json sample_a1)) s
    = Returned (Observable_throw (ErrValue "boom")) s []
  ∧ command (Push (object_json sample_a1)) s
    ≠ Returned (Observable_throw (Error closed_message)) s [].
Proof. intros s. split_and!; [done | done |]. vm_compute. discriminate. Qed.

(** C6. Every request that [remove] sends is a POST to the delete endpoint
    whose body holds, under [query], [{index: "id", value: s}] for a bare
    string [s] and [{index: indexName, value: indexValue}] for a pair; on a
    collection that recorded no error and is not closed, [remove] sends
    exactly that one request. *)
Theorem remove_query s :
  let url := API_URL s +:+ "/api/delete" in
  (∀ index url' init,
     Fetch url' init ∈ log_of (remove index s) →
     url' = url ∧ method init = "POST"
     ∧ member "query" (body init)
       = Some (match index with
               | Index_string x => JObj [("index", JStr "id"); ("value", JStr x)]
               | Index_pair indexName indexValue =>
                   JObj [("index", JStr indexName); ("value", JStr indexValue)]
               end))
  ∧ (hasError s = false → closed s = false →
     (∀ x, ∃ init,
        remove (Index_string x) s = Returned (Observable_fromPromise url init) s [Fetch url init]
        ∧ member "query" (body init)
          = Some (JObj [("index", JStr "id"); ("value", JStr x)]))
     ∧ (∀ indexName indexValue, ∃ init,
        remove (Index_pair indexName indexValue) s
        = Returned (Observable_fromPromise url init) s [Fetch url init]
        ∧ member "query" (body init)
          = Some (JObj [("index", JStr indexName); ("value", JStr indexValue)]))).
Proof.
  intros url. split.
  - intros index url' init.
    unfold remove; run_M.
    destruct (hasError s); simpl; [by intros ?%elem_of_nil|].
    destruct (closed s); simpl; [by intros ?%elem_of_nil|].
    intros Hin%list_elem_of_singleton. injection Hin as -> ->.
    by destruct index.
  - intros Herr Hclosed.
    split; intros; eexists; unfold remove; run_M; rewrite Herr, Hclosed; simpl; done.
Qed.

Lemma remove_query_witness :
  ∃ init,
    remove (Index_pair "email" "a@b.com") sample_live
    = Returned (Observable_fromPromise "http://localhost:3200/api/delete" init)
        sample_live [Fetch "http://localhost:3200/api/delete" init]
    ∧ member "query" (body init)
      = Some (JObj [("index", JStr "email"); ("value", JStr "a@b.com")]).
Proof.
  exact (proj2 (proj2 (remove_query sample_live) eq_refl eq_refl) "email" "a@b.com").
Defined.

(** ** Identifiers along a feed *)

Lemma socketDataHandler_unreadable s data :
  ¬ readable s → exec (socketDataHandler data) s = s.
Proof.
  unfold readable. intros Hn.
  unfold exec, socketDataHandler, getValue; run_M.
  destruct (hasError s) eqn:Herr; [done|].
  destruct (closed s) eqn:Hclosed; [done|]. by destruct Hn.
Qed.

(** The snapshot after a message without error, case by case. *)
Lemma socketDataHandler_error_free s data :
  readable s → error_free data →
  readable (exec (socketDataHandler data) s)
  ∧ _value (exec (socketDataHandler data) s)
    = match old_val data, new_val data with
      | None, Some n => n :: _value s
      | Some o, Some n =>
          if decide (id n ∈ ids (_value s))
          then filter (λ object, id object ≠ id o) (_value s) ++ [n]
          else _value s
      | Some o, None => filter (λ object, id object ≠ id o) (_value s)
      | None, None => []
      end.
Proof.
  intros Hs Hfree. unfold exec, error_free in *.
  rewrite socketDataHandler_readable by done. unfold reconcile.
  destruct (old_val data) as [o|], (new_val data) as [n|]; simpl; rewrite ?Hfree.
  - destruct (decide (id n ∈ ids (_value s))) as [Hin|Hin].
    + rewrite bool_decide_eq_true_2 by by apply matching_nonempty.
      by rewrite next_open by apply Hs.
    + by rewrite bool_decide_eq_false_2 by by rewrite matching_nonempty.
  - by rewrite next_open by apply Hs.
  - by rewrite next_open by apply Hs.
  - destruct (_value s) as [|x db] eqn:Hdb; simpl; [done|].
    by rewrite next_open by apply Hs.
Qed.

(** A message with an error empties the snapshot or leaves it as it is. *)
Lemma socketDataHandler_with_error s data e :
  readable s → truthy_string (err data) = Some e →
  _value (exec (socketDataHandler data) s) = []
  ∨ _value (exec (socketDataHandler data) s) = _value s.
Proof.
  intros Hs Herr. unfold exec.
  rewrite socketDataHandler_readable by done. unfold reconcile.
  destruct (negb (truthy (old_val data)) && negb (truthy (new_val data))
            && bool_decide (0 < length (_value s))).
  - left. by rewrite next_open by apply Hs.
  - right. rewrite Herr. by rewrite error_open by apply Hs.
Qed.

Lemma NoDup_ids_filter (db : list IRethinkObject) (i : string) :
  NoDup (ids db) → NoDup (ids (filter (λ object, id object ≠ i) db)).
Proof. intros Hdb. rewrite ids_filter_ne. by apply NoDup_filter. Qed.

Lemma socketDataHandler_NoDup s data :
  NoDup (ids (_value s)) →
  disciplined_at (_value s) data = true →
  NoDup (ids (_value (exec (socketDataHandler data) s))).
Proof.
  intros Hdb Hdata.
  destruct (hasError s) eqn:Herr;
    [by rewrite socketDataHandler_unreadable by (intros [??]; congruence)|].
  destruct (closed s) eqn:Hclosed;
    [by rewrite socketDataHandler_unreadable by (intros [??]; congruence)|].
  assert (Hs : readable s) by done.
  destruct (truthy_string (err data)) as [e|] eqn:He.
  { destruct (socketDataHandler_with_error s data e Hs He) as [-> | ->];
      [apply NoDup_nil_2 | done]. }
  destruct (socketDataHandler_error_free s data Hs He) as [_ ->].
  unfold disciplined_at in Hdata.
  destruct (old_val data) as [o|], (new_val data) as [n|].
  - apply bool_decide_eq_true in Hdata.
    destruct (decide (id n ∈ ids (_value s))); [|done].
    unfold ids. rewrite fmap_app. apply NoDup_app. split_and!.
    + by apply NoDup_ids_filter.
    + intros i Hi Hn. apply list_elem_of_singleton in Hn as ->.
      fold (ids (filter (λ object, id object ≠ id o) (_value s))) in Hi.
      rewrite ids_filter_ne in Hi. apply list_elem_of_filter in Hi as [Hne _].
      by apply Hne.
    + apply NoDup_singleton.
  - by apply NoDup_ids_filter.
  - apply bool_decide_eq_true in Hdata. unfold ids. rewrite fmap_cons.
    by apply NoDup_cons.
  - apply NoDup_nil_2.
Qed.

Lemma feed_NoDup events : ∀ s,
  NoDup (ids (_value s)) → disciplined events s = true →
  NoDup (ids (_value (feed events s))).
Proof.
  induction events as [|data events IH]; intros s Hdb Hall; [done|].
  simpl in *. apply andb_true_iff in Hall as [Hdata Hall].
  apply IH; [by apply socketDataHandler_NoDup | done].
Qed.

(** The identifiers of the snapshot follow the net effect of a feed without
    errors. *)
Lemma feed_net_ids events : ∀ s (present : gset string),
  readable s → Forall error_free events →
  (∀ i, i ∈ ids (_value s) ↔ i ∈ present) →
  ∀ i, i ∈ ids (_value (feed events s)) ↔ i ∈ foldl net_step present events.
Proof.
  induction events as [|data events IH]; intros s present Hs Hfree Hsame; [done|].
  apply Forall_cons in Hfree as [Hdata Hfree].
  destruct (socketDataHandler_error_free s data Hs Hdata) as [Hs' Hvalue].
  simpl. apply IH; [done | done |].
  rewrite Hvalue. unfold net_step. intros i.
  destruct (old_val data) as [o|], (new_val data) as [n|].
  - destruct (decide (id n ∈ ids (_value s))) as [Hin|Hin].
    + rewrite decide_True by by apply Hsame.
      unfold ids. rewrite fmap_app.
      fold (ids (filter (λ object, id object ≠ id o) (_value s))).
      rewrite ids_filter_ne, elem_of_app, list_elem_of_filter, Hsame.
      rewrite list_fmap_singleton, list_elem_of_singleton.
      rewrite elem_of_union, elem_of_difference, !elem_of_singleton. tauto.
    + rewrite decide_False by by rewrite <- Hsame. apply Hsame.
  - rewrite ids_filter_ne, list_elem_of_filter, Hsame.
    rewrite elem_of_difference, elem_of_singleton. tauto.
  - unfold ids. rewrite fmap_cons, elem_of_cons.
    fold (ids (_value s)). by rewrite Hsame, elem_of_union, elem_of_singleton.
  - unfold ids; simpl. by rewrite elem_of_nil, elem_of_empty.
Qed.

(** Without duplicates, an identifier that occurs belongs to one entity. *)
Lemma NoDup_ids_count (db : list IRethinkObject) (i : string) :
  NoDup (ids db) →
  length (filter (λ object, id object = i) db) = if decide (i ∈ ids db) then 1 else 0.
Proof.
  unfold ids. induction db as [|x db IH]; [done|].
  rewrite fmap_cons, NoDup_cons. intros [Hx Hdb].
  rewrite filter_cons. destruct (decide (id x = i)) as [<-|Hne].
  - rewrite decide_True by left. simpl. rewrite IH by done.
    by rewrite decide_False.
  - rewrite IH by done. destruct (decide (i ∈ id <$> db)) as [Hin|Hin].
    + rewrite decide_True; [done | by right].
    + rewrite decide_False; [done|]. rewrite not_elem_of_cons. split; [congruence | done].
Qed.

(** C2, as amended. Messages are handled in order from the empty snapshot
    of a collection that can be read.  When every insert brings an
    identifier that the snapshot of the moment does not hold and every
    update keeps the identifier of the entity it replaces, no two entities
    of the resulting snapshot have the same identifier; when moreover no
    message carries an error, the snapshot holds exactly one entity for each
    identifier of the net effect of the feed and none for any other. *)
Theorem feed_no_duplicates s events :
  readable s → _value s = [] →
  disciplined events s = true →
  NoDup (ids (_value (feed events s)))
  ∧ (Forall error_free events →
     ∀ i, length (filter (λ object, id object = i) (_value (feed events s)))
          = if decide (i ∈ net_ids events) then 1 else 0).
Proof.
  intros Hs Hnil Hall.
  assert (Hnodup : NoDup (ids (_value (feed events s)))).
  { apply feed_NoDup; [|done]. rewrite Hnil. apply NoDup_nil_2. }
  split; [done|]. intros Hfree i.
  rewrite NoDup_ids_count by done.
  assert (Hsame : i ∈ ids (_value (feed events s)) ↔ i ∈ net_ids events).
  { apply feed_net_ids; [done | done |]. intros j. rewrite Hnil.
    unfold ids; simpl. by rewrite elem_of_nil, elem_of_empty. }
  destruct (decide (i ∈ ids (_value (feed events s)))) as [Hin|Hin].
  - by rewrite decide_True by by apply Hsame.
  - by rewrite decide_False by by rewrite <- Hsame.
Qed.

Lemma feed_no_duplicates_witness :
  let events := [Inserted sample_a1; Inserted sample_b1;
                 Updated sample_a1 sample_a2; Removed sample_b1] in
  readable sample_live
  ∧ disciplined events sample_live = true
  ∧ NoDup (ids (_value (feed events sample_live))).
Proof.
  intros events.
  assert (Hs : readable sample_live) by done.
  assert (Hall : disciplined events sample_live = true) by (vm_compute; reflexivity).
  split_and!; [exact Hs | exact Hall |].
  exact (proj1 (feed_no_duplicates sample_live events Hs eq_refl Hall)).
Defined.

(** C2, counterexample. From the empty snapshot, two inserts of entities
    with the identifier ["a"] leave both in the snapshot; so does an update
    that moves the identifier ["a"] to ["b"] while ["b"] is held. *)
Lemma feed_duplicates :
  _value sample_live = []
  ∧ ids (_value (feed [Inserted sample_a1; Inserted sample_a2] sample_live)) = ["a"; "a"]
  ∧ ¬ NoDup (ids (_value (feed [Inserted sample_a1; Inserted sample_a2] sample_live)))
  ∧ ids (_value (feed [Inserted sample_a1; Inserted sample_b1; Updated sample_a1 sample_b2]
                   sample_live)) = ["b"; "b"]
  ∧ ¬ NoDup (ids (_value (feed [Inserted sample_a1; Inserted sample_b1;
                                Updated sample_a1 sample_b2] sample_live))).
Proof.
  split_and!; [done | done | | done |].
  - intros [Hn _]%NoDup_cons. apply Hn. left.
  - intros [Hn _]%NoDup_cons. apply Hn. left.
Qed.

(** * Further properties of the class *)

(** ** The handler as a whole *)

(** The three ways the chain of tests ends on a subject that is not closed:
    nothing is called, [next] is called, [error] is called. *)
Lemma reconcile_cases db data s :
  closed s = false →
  reconcile db data s = Returned () s []
  ∨ (∃ value, reconcile db data s
              = Returned () (set_value value s) (published value s))
  ∨ (∃ e, reconcile db data s
          = Returned () (set_observers [] (set_failed (ErrValue e) s))
              ((λ o, Observer_error o (ErrValue e)) <$> observers s)).
Proof.
  intros Hclosed. unfold reconcile.
  destruct (negb (truthy (old_val data)) && negb (truthy (new_val data))
            && bool_decide (0 < length db)).
  { right; left. eexists. by apply next_open. }
  destruct (truthy_string (err data)) as [e|].
  { right; right. eexists. by apply error_open. }
  destruct (old_val data) as [o|], (new_val data) as [n|].
  - destruct (bool_decide _); [|by left].
    right; left. eexists. by apply next_open.
  - right; left. eexists. by apply next_open.
  - right; left. eexists. by apply next_open.
  - by left.
Qed.

Lemma socketDataHandler_closed s data :
  hasError s = false → closed s = true →
  socketDataHandler data s = Thrown ObjectUnsubscribedError s [].
Proof.
  intros Herr Hclosed. unfold socketDataHandler, getValue; run_M.
  by rewrite Herr, Hclosed.
Qed.

Lemma feed_unreadable events s : ¬ readable s → feed events s = s.
Proof.
  intros Hs. induction events as [|data events IH]; [done|].
  simpl. by rewrite socketDataHandler_unreadable.
Qed.

(** The handler on a message already parsed returns exactly on a collection
    that can be read. *)
Lemma socketDataHandler_returns s data :
  (readable s → ∃ s' log, socketDataHandler data s = Returned () s' log)
  ∧ (hasError s = true →
     socketDataHandler data s = Thrown (thrownError s) s [])
  ∧ (hasError s = false → closed s = true →
     socketDataHandler data s = Thrown ObjectUnsubscribedError s []).
Proof.
  split_and!.
  - intros Hs. rewrite socketDataHandler_readable by done.
    destruct (reconcile_cases (_value s) data s) as [->|[[v ->]|[e ->]]];
      [apply Hs | eauto..].
  - apply socketDataHandler_failed.
  - apply socketDataHandler_closed.
Qed.

Lemma getValue_cases s :
  (readable s ∧ getValue s = Returned (_value s) s [])
  ∨ (¬ readable s ∧ ∃ e, getValue s = Thrown e s []
       ∧ e = if hasError s then thrownError s else ObjectUnsubscribedError).
Proof.
  unfold getValue; run_M.
  destruct (hasError s) eqn:Herr;
    [right; split; [intros [??]; congruence | eauto]|].
  destruct (closed s) eqn:Hclosed;
    [right; split; [intros [??]; congruence | eauto]|].
  by left.
Qed.



(** X2. Whatever the message and the state, the handler leaves the base
    address, the configuration, the table, the query, the socket and the
    [closed] flag of the collection as they were, and it never takes a
    recorded error back. *)
Theorem socketDataHandler_frame s data :
  let s' := exec (socketDataHandler data) s in
  API_URL s' = API_URL s
  ∧ rethinkdbConfig s' = rethinkdbConfig s
  ∧ table s' = table s
  ∧ query_ s' = query_ s
  ∧ socket s' = socket s
  ∧ closed s' = closed s
  ∧ (hasError s = true → s' = s).
Proof.
  intros s'. subst s'.
  destruct (hasError s) eqn:Herr;
    [by rewrite socketDataHandler_unreadable by (intros [??]; congruence)|].
  destruct (closed s) eqn:Hclosed;
    [by rewrite socketDataHandler_unreadable by (intros [??]; congruence)|].
  unfold exec. rewrite socketDataHandler_readable by done.
  destruct (reconcile_cases (_value s) data s Hclosed) as [->|[[v ->]|[e ->]]];
    simpl; by rewrite ?Hclosed.
Qed.

(** X3. The handler only speaks to the observers of the collection, and to
    all of them alike: every call it makes is [next] with the snapshot it
    has just stored or [error] with the error it has just recorded, on an
    observer of the collection; when one observer receives a snapshot or an
    error, every observer receives the same. *)
Theorem socketDataHandler_notifies s data :
  let r := socketDataHandler data s in
  (∀ eff, eff ∈ log_of r →
     ∃ o, o ∈ observers s
          ∧ (eff = Observer_next o (_value (state_of r))
             ∨ eff = Observer_error o (thrownError (state_of r))
               ∧ hasError (state_of r) = true))
  ∧ (∀ o value, Observer_next o value ∈ log_of r →
       ∀ o', o' ∈ observers s → Observer_next o' value ∈ log_of r)
  ∧ (∀ o e, Observer_error o e ∈ log_of r →
       ∀ o', o' ∈ observers s → Observer_error o' e ∈ log_of r).
Proof.
  intros r. subst r.
  destruct (hasError s) eqn:Herr.
  { rewrite socketDataHandler_failed by done; simpl.
    split_and!; intros; by exfalso; eapply elem_of_nil. }
  destruct (closed s) eqn:Hclosed.
  { rewrite socketDataHandler_closed by done; simpl.
    split_and!; intros; by exfalso; eapply elem_of_nil. }
  rewrite socketDataHandler_readable by done.
  destruct (reconcile_cases (_value s) data s Hclosed) as [->|[[v ->]|[e ->]]]; simpl.
  - split_and!; intros; by exfalso; eapply elem_of_nil.
  - unfold published. destruct (isStopped s).
    { split_and!; intros; by exfalso; eapply elem_of_nil. }
    split_and!.
    + intros eff (o & -> & Ho)%list_elem_of_fmap. eauto.
    + intros o value (o1 & [= <- <-] & Ho1)%list_elem_of_fmap o' Ho'.
      apply list_elem_of_fmap. eauto.
    + intros o e' (o1 & [=] & Ho1)%list_elem_of_fmap.
  - split_and!.
    + intros eff (o & -> & Ho)%list_elem_of_fmap. eauto.
    + intros o value (o1 & [=] & Ho1)%list_elem_of_fmap.
    + intros o e' (o1 & [= <- <-] & Ho1)%list_elem_of_fmap o' Ho'.
      apply list_elem_of_fmap. eauto.
Qed.

(** ** More on single messages *)

Lemma socketDataHandler_Removed s old :
  readable s →
  socketDataHandler (Removed old) s
  = Returned ()
      (set_value (filter (λ object, id object ≠ id old) (_value s)) s)
      (published (filter (λ object, id object ≠ id old) (_value s)) s).
Proof.
  intros Hs. rewrite socketDataHandler_readable by done.
  unfold reconcile; simpl. by rewrite next_open by apply Hs.
Qed.

Lemma filter_ne_idemp (db : list IRethinkObject) (i : string) :
  filter (λ object, id object ≠ i) (filter (λ object, id object ≠ i) db)
  = filter (λ object, id object ≠ i) db.
Proof.
  apply filter_absent. rewrite ids_filter_ne, list_elem_of_filter. by intros [? _].
Qed.

(** X4. On a collection that can be read, [Removed old] leaves the snapshot
    without any entity of the identifier of [old] and with every other
    entity, in the previous order; the result is published even when nothing
    was removed, and handling the message again changes nothing. *)
Theorem removed_deletes_by_id s old :
  readable s →
  let r := socketDataHandler (Removed old) s in
  _value (state_of r) = filter (λ object, id object ≠ id old) (_value s)
  ∧ (id old ∉ ids (_value (state_of r)))
  ∧ (∀ object, id object ≠ id old →
       (object ∈ _value (state_of r) ↔ object ∈ _value s))
  ∧ (id old ∉ ids (_value s) → _value (state_of r) = _value s)
  ∧ log_of r = published (_value (state_of r)) s
  ∧ exec (socketDataHandler (Removed old)) (state_of r) = state_of r.
Proof.
  intros Hs r. subst r. rewrite socketDataHandler_Removed by done; simpl.
  split_and!; [done | | | | done |].
  - rewrite ids_filter_ne, list_elem_of_filter. by intros [? _].
  - intros object Hne. rewrite list_elem_of_filter. tauto.
  - apply filter_absent.
  - unfold exec. rewrite socketDataHandler_Removed by by apply readable_set_value.
    simpl. by rewrite filter_ne_idemp.
Qed.

Lemma removed_deletes_by_id_witness :
  let s := feed [Inserted sample_a1; Inserted sample_b1] sample_live in
  readable s
  ∧ _value (exec (socketDataHandler (Removed sample_a2)) s) = [sample_b1].
Proof.
  intros s.
  assert (Hs : readable s) by done.
  split; [exact Hs|].
  exact (proj1 (removed_deletes_by_id s sample_a2 Hs)).
Defined.

Lemma feed_Inserted vs : ∀ s,
  readable s →
  readable (feed (Inserted <$> vs) s)
  ∧ feed (Inserted <$> vs) s = set_value (reverse vs ++ _value s) s.
Proof.
  induction vs as [|v vs IH]; intros s Hs.
  - split; [done | by destruct s].
  - rewrite fmap_cons; simpl. unfold exec.
    rewrite socketDataHandler_Inserted by done; simpl.
    destruct (IH (set_value (v :: _value s) s)) as [Hr ->];
      [by apply readable_set_value|].
    split; [by apply readable_set_value|].
    simpl. by rewrite reverse_cons, <- app_assoc.
Qed.

(** X5. On a collection that can be read, a run of inserts stacks the
    entities in front of the snapshot, the last one received first: the
    snapshot after [Inserted v1, ..., Inserted vn] is [[vn; ...; v1]]
    followed by the previous snapshot, and nothing else of the object
    changes. *)
Theorem inserts_stack s vs :
  readable s →
  _value (feed (Inserted <$> vs) s) = reverse vs ++ _value s
  ∧ feed (Inserted <$> vs) s = set_value (reverse vs ++ _value s) s.
Proof.
  intros Hs. destruct (feed_Inserted vs s Hs) as [_ ->]. done.
Qed.

Lemma inserts_stack_witness :
  readable sample_live
  ∧ _value (feed (Inserted <$> [sample_a1; sample_b1]) sample_live)
    = [sample_b1; sample_a1].
Proof.
  assert (Hs : readable sample_live) by done.
  split; [exact Hs|].
  exact (proj1 (inserts_stack sample_live [sample_a1; sample_b1] Hs)).
Defined.

(** X6. On a collection that can be read and whose snapshot has no two
    entities of the same identifier, an [Updated old new] that keeps the
    identifier of an entity of the snapshot replaces that entity: the
    identifiers of the snapshot are the same up to order, the number of
    entities is the same, no identifier is doubled, and [new] is the last
    entity. *)
Theorem updated_in_place s old new :
  readable s →
  NoDup (ids (_value s)) →
  id old = id new →
  id new ∈ ids (_value s) →
  let db' := _value (exec (socketDataHandler (Updated old new)) s) in
  ids db' ≡ₚ ids (_value s)
  ∧ length db' = length (_value s)
  ∧ NoDup (ids db')
  ∧ last db' = Some new.
Proof.
  intros Hs Hnodup Hid Hin db'.
  assert (Hdb' : db' = filter (λ object, id object ≠ id old) (_value s) ++ [new]).
  { subst db'. unfold exec. rewrite socketDataHandler_readable by done.
    unfold reconcile; simpl.
    rewrite bool_decide_eq_true_2 by by apply matching_nonempty.
    by rewrite next_open by apply Hs. }
  assert (Hperm : ids db' ≡ₚ ids (_value s)).
  { rewrite Hdb'. unfold ids in *.
    apply list_elem_of_fmap in Hin as (x & Hx & Hin).
    apply list_elem_of_split in Hin as (l1 & l2 & Hsplit).
    rewrite Hsplit in *. rewrite fmap_app, fmap_cons in Hnodup.
    apply NoDup_app in Hnodup as (_ & Hl1 & [Hl2 _]%NoDup_cons).
    rewrite filter_app, filter_cons_False by (intros Hne; apply Hne; congruence).
    rewrite !filter_absent.
    - rewrite !fmap_app, fmap_cons; simpl. rewrite <- Hx.
      rewrite <- app_assoc. apply Permutation_app_head.
      symmetry. apply Permutation_cons_append.
    - unfold ids. by rewrite Hid, Hx.
    - unfold ids. rewrite Hid, Hx. intros Hmem. apply (Hl1 (id x)); [done | left]. }
  split_and!; [done | | |].
  - apply Permutation_length in Hperm. unfold ids in Hperm.
    by rewrite !length_fmap in Hperm.
  - by rewrite Hperm.
  - rewrite Hdb'. apply last_snoc.
Qed.

Lemma updated_in_place_witness :
  let s := feed [Inserted sample_a1; Inserted sample_b1] sample_live in
  readable s
  ∧ NoDup (ids (_value s))
  ∧ last (_value (exec (socketDataHandler (Updated sample_b1 sample_b2)) s))
    = Some sample_b2.
Proof.
  intros s.
  assert (Hs : readable s) by done.
  assert (Hnodup : NoDup (ids (_value s))) by (vm_compute; apply NoDup_ListNoDup; repeat constructor; simpl; intuition discriminate).
  assert (Hin : id sample_b2 ∈ ids (_value s)) by (vm_compute; left).
  split_and!; [exact Hs | exact Hnodup |].
  exact (proj2 (proj2 (proj2
    (updated_in_place s sample_b1 sample_b2 Hs Hnodup eq_refl Hin)))).
Defined.

(** X7. On a collection that can be read, two removals can be handled in
    either order, and so can the insert of an entity and the removal of
    another identifier: the collection is the same afterwards. *)
Theorem removals_commute s :
  readable s →
  (∀ old1 old2,
     feed [Removed old1; Removed old2] s = feed [Removed old2; Removed old1] s)
  ∧ (∀ v old, id v ≠ id old →
       feed [Inserted v; Removed old] s = feed [Removed old; Inserted v] s).
Proof.
  intros Hs. split.
  - intros old1 old2. simpl. unfold exec.
    rewrite (socketDataHandler_Removed s old1), (socketDataHandler_Removed s old2)
      by done; simpl.
    rewrite !socketDataHandler_Removed by by apply readable_set_value.
    simpl. unfold set_value; simpl. f_equal.
    rewrite !list_filter_filter. apply list_filter_iff. tauto.
  - intros v old Hne. simpl. unfold exec.
    rewrite (socketDataHandler_Inserted s Hs v), (socketDataHandler_Removed s old Hs).
    simpl.
    rewrite socketDataHandler_Inserted by by apply readable_set_value.
    rewrite socketDataHandler_Removed by by apply readable_set_value.
    simpl. unfold set_value; simpl. f_equal.
    by rewrite filter_cons_True.
Qed.

Lemma removals_commute_witness :
  let s := feed [Inserted sample_a1; Inserted sample_b1] sample_live in
  readable s
  ∧ feed [Removed sample_a1; Removed sample_b1] s
    = feed [Removed sample_b1; Removed sample_a1] s.
Proof.
  intros s.
  assert (Hs : readable s) by done.
  split; [exact Hs|].
  exact (proj1 (removals_commute s Hs) sample_a1 sample_b1).
Defined.

(** ** More on the commands *)

(** The two ways a command ends. *)
Lemma command_cases s c :
  (∃ e, command c s = Returned (Observable_throw e) s []
        ∧ (hasError s = true ∨ closed s = true))
  ∨ (∃ body,
       command c s
       = post (API_URL s +:+ endpoint c) body s
       ∧ hasError s = false ∧ closed s = false
       ∧ member "db" body = Some (JStr (database (rethinkdbConfig s)))
       ∧ member "table" body = Some (JStr (table s))
       ∧ member "api_key" body = Some (JStr (api_key (rethinkdbConfig s)))).
Proof.
  destruct (hasError s) eqn:Herr.
  { left. eexists. split; [|by left].
    destruct c; simpl; unfold push, remove, update; run_M; by rewrite Herr. }
  destruct (closed s) eqn:Hclosed.
  { left. eexists. split; [|by right].
    destruct c; simpl; unfold push, remove, update; run_M; by rewrite Herr, Hclosed. }
  right. destruct c as [newObject|index|updatedObj query]; simpl.
  - eexists. split;
      [unfold push; run_M; by rewrite Herr, Hclosed | by split_and!].
  - destruct index; eexists;
      (split; [unfold remove; run_M; by rewrite Herr, Hclosed | by split_and!]).
  - eexists. split;
      [unfold update; run_M; by rewrite Herr, Hclosed | by split_and!].
Qed.

Lemma post_run url body s :
  post url body s
  = Returned (Observable_fromPromise url
                {| method := "POST"; body := body; headers := json_headers |})
      s [Fetch url {| method := "POST"; body := body; headers := json_headers |}].
Proof. done. Qed.

(** X8. A command never changes the collection and never speaks to an
    observer or to the socket: whatever the state, the object is the same
    afterwards and every call made is a [fetch].  On a collection that
    recorded no error and is not closed it makes exactly one [fetch], a POST
    with the JSON headers to the endpoint of the command under the base
    address, and returns the observable of that request. *)
Theorem commands_leave_collection s c :
  state_of (command c s) = s
  ∧ (∀ eff, eff ∈ log_of (command c s) → ∃ url init, eff = Fetch url init)
  ∧ (hasError s = false → closed s = false →
     ∃ init,
       command c s
       = Returned (Observable_fromPromise (API_URL s +:+ endpoint c) init) s
           [Fetch (API_URL s +:+ endpoint c) init]
       ∧ method init = "POST" ∧ headers init = json_headers).
Proof.
  destruct (command_cases s c) as [(e & -> & Hdead)|(body & -> & Herr & Hclosed & _)].
  - split_and!; [done | by intros eff ?%elem_of_nil |].
    intros Herr Hclosed. destruct Hdead; congruence.
  - rewrite post_run; simpl. split_and!; [done | | eauto].
    intros eff ->%list_elem_of_singleton. eauto.
Qed.

(** X9. Every request a command sends goes to the endpoint of that command
    under the base address of the collection, and its body names the
    database and the API key of the configuration and the table of the
    collection. *)
Theorem requests_carry_credentials s c url init :
  Fetch url init ∈ log_of (command c s) →
  url = API_URL s +:+ endpoint c
  ∧ member "db" (body init) = Some (JStr (database (rethinkdbConfig s)))
  ∧ member "table" (body init) = Some (JStr (table s))
  ∧ member "api_key" (body init) = Some (JStr (api_key (rethinkdbConfig s))).
Proof.
  destruct (command_cases s c)
    as [(e & -> & _)|(body & -> & _ & _ & Hdb & Htable & Hkey)].
  - by intros ?%elem_of_nil.
  - rewrite post_run; simpl. by intros [= -> ->]%list_elem_of_singleton.
Qed.

Lemma requests_carry_credentials_witness :
  ∃ url init,
    Fetch url init ∈ log_of (command (Update sample_a2 None) sample_live)
    ∧ url = "http://localhost:3200/api/update"
    ∧ member "db" (body init) = Some (JStr "app")
    ∧ member "table" (body init) = Some (JStr "myTable")
    ∧ member "api_key" (body init) = Some (JStr "AAAA-BBBBB-CCCCC").
Proof.
  eexists _, _.
  assert (Hin : Fetch "http://localhost:3200/api/update"
                  {| method := "POST";
                     body := JObj [("db", JStr "app"); ("table", JStr "myTable");
                                   ("api_key", JStr "AAAA-BBBBB-CCCCC");
                                   ("object", object_json sample_a2)];
                     headers := json_headers |}
                ∈ log_of (command (Update sample_a2 None) sample_live))
    by (vm_compute; left).
  split; [exact Hin|].
  exact (requests_carry_credentials sample_live (Update sample_a2 None) _ _ Hin).
Defined.

(** X10. The request of [push] carries the object it was given under
    [object] and no [query]; the request of [update] carries the entity
    under [object], identifier included, and the query under [query] exactly
    when one was given. *)
Theorem requests_carry_payload s :
  (∀ newObject url init,
     Fetch url init ∈ log_of (push newObject s) →
     member "object" (body init) = Some newObject
     ∧ member "query" (body init) = None)
  ∧ (∀ updatedObj query url init,
       Fetch url init ∈ log_of (update updatedObj query s) →
       member "object" (body init) = Some (object_json updatedObj)
       ∧ member "id" (object_json updatedObj) = Some (JStr (id updatedObj))
       ∧ member "query" (body init) = query).
Proof.
  split.
  - intros newObject url init. unfold push; run_M.
    destruct (hasError s); simpl; [by intros ?%elem_of_nil|].
    destruct (closed s); simpl; [by intros ?%elem_of_nil|].
    by intros [= -> ->]%list_elem_of_singleton.
  - intros updatedObj query url init. unfold update; run_M.
    destruct (hasError s); simpl; [by intros ?%elem_of_nil|].
    destruct (closed s); simpl; [by intros ?%elem_of_nil|].
    intros [= -> ->]%list_elem_of_singleton. by destruct query.
Qed.

(** ** The life of a collection *)

Lemma append_empty_r (s : string) : s +:+ "" = s.
Proof.
  induction s as [|a s IH]; [done|].
  change (String a s +:+ "") with (String a (s +:+ "")). by rewrite IH.
Qed.

(** X11. A collection just built holds the empty snapshot, recorded no
    error, is not closed and has neither observer nor socket, and it accepts
    the commands at once: each one sends its request under the base address
    made of the host and of [":" + port], where a part that is missing or
    empty is left out. *)
Theorem constructor_ready cfg tbl query c :
  let s := constructor cfg tbl query in
  let base :=
    match host cfg, port cfg with
    | Some h, Some p =>
        if decide (h = "") then (if decide (p = "") then "" else ":" +:+ p)
        else if decide (p = "") then h else h +:+ ":" +:+ p
    | Some h, None => h
    | None, Some p => if decide (p = "") then "" else ":" +:+ p
    | None, None => ""
    end in
  readable s ∧ _value s = [] ∧ observers s = [] ∧ socket s = None
  ∧ API_URL s = base
  ∧ ∃ init,
      command c s
      = Returned (Observable_fromPromise (base +:+ endpoint c) init) s
          [Fetch (base +:+ endpoint c) init].
Proof.
  intros s base.
  assert (Hbase : API_URL s = base).
  { subst s base; simpl.
    destruct (host cfg) as [h|], (port cfg) as [p|]; simpl;
      repeat case_decide; subst; by rewrite ?append_empty_r. }
  split_and!; [done.. |].
  destruct (command_cases s c) as [(e & _ & [?|?])|(body & -> & _)]; [done | done |].
  rewrite post_run, Hbase. eauto.
Qed.

Lemma unsubscribe_no_socket s :
  socket s = None →
  ∃ message, unsubscribe s = Thrown (TypeError message) s [].
Proof. intros Hsocket. unfold unsubscribe; run_M. rewrite Hsocket. eauto. Qed.

Lemma unsubscribe_socket s url :
  socket s = Some url →
  unsubscribe s = Returned () (set_closed s) [Socket_disconnect].
Proof. intros Hsocket. unfold unsubscribe; run_M. by rewrite Hsocket. Qed.

(** X12. [unsubscribe] on a collection that was never subscribed throws a
    [TypeError] before anything is done: the socket does not exist yet, the
    collection is not closed and stays as it was built. *)
Theorem unsubscribe_before_subscribe cfg tbl query :
  let s := constructor cfg tbl query in
  (∃ message, unsubscribe s = Thrown (TypeError message) s [])
  ∧ closed (exec unsubscribe s) = false
  ∧ exec unsubscribe s = s.
Proof.
  intros s. destruct (unsubscribe_no_socket s) as [message Hrun]; [done|].
  unfold exec. rewrite Hrun. eauto.
Qed.

(** X13. [unsubscribe] on a collection that has a socket disconnects it and
    closes the collection, whose snapshot is kept and whose observers are
    dropped.  From then on no message changes the collection or reaches an
    observer, and no command sends a request. *)
Theorem unsubscribe_closes s url :
  socket s = Some url →
  let s' := exec unsubscribe s in
  unsubscribe s = Returned () s' [Socket_disconnect]
  ∧ closed s' = true ∧ observers s' = [] ∧ _value s' = _value s
  ∧ (∀ events, feed events s' = s')
  ∧ (∀ data, log_of (socketDataHandler data s') = [])
  ∧ (∀ c, log_of (command c s') = []).
Proof.
  intros Hsocket s'.
  assert (Hs' : s' = set_closed s)
    by (subst s'; unfold exec; by rewrite (unsubscribe_socket s url)).
  assert (Hclosed : closed s' = true) by by rewrite Hs'.
  assert (Hdead : ¬ readable s') by (intros [_ ?]; congruence).
  split_and!; [| done | by rewrite Hs' | by rewrite Hs' | | |].
  - rewrite Hs'. by apply unsubscribe_socket with url.
  - intros events. by apply feed_unreadable.
  - intros data. destruct (hasError s') eqn:Herr.
    + by rewrite socketDataHandler_failed.
    + by rewrite socketDataHandler_closed.
  - intros c. destruct (command_cases s' c) as [(e & -> & _)|(body & _ & _ & ? & _)];
      [done | congruence].
Qed.

Lemma unsubscribe_closes_witness :
  let s := feed [Inserted sample_a1] sample_live in
  socket s = Some "http://localhost:3200"
  ∧ _value (exec unsubscribe s) = [sample_a1]
  ∧ feed [Removed sample_a1] (exec unsubscribe s) = exec unsubscribe s.
Proof.
  intros s.
  assert (Hsocket : socket s = Some "http://localhost:3200") by reflexivity.
  pose proof (unsubscribe_closes s _ Hsocket) as (_ & _ & _ & Hvalue & Hfeed & _).
  split_and!; [exact Hsocket | exact Hvalue | exact (Hfeed [Removed sample_a1])].
Defined.

(** The payload of the [register] message. *)
Lemma _subscribe_open s subscriber :
  readable s → isStopped s = false →
  _subscribe subscriber s
  = Returned (SubjectSubscription subscriber)
      (set_observers (observers s ++ [subscriber]) (set_socket (API_URL s) s))
      [Socket_io (API_URL s); Socket_on (table s);
       Socket_emit "register"
         (JArr [config_json (rethinkdbConfig s);
                JObj (("table", JStr (table s)) :: optional_member "query" (query_ s))]);
       Observer_next subscriber (_value s)].
Proof.
  intros [Herr Hclosed] Hstopped.
  unfold _subscribe, register, BehaviorSubject_subscribe, Subject_subscribe; run_M.
  by rewrite Hclosed, Herr, Hstopped.
Qed.

Lemma _subscribe_failed s subscriber :
  hasError s = true → closed s = false →
  _subscribe subscriber s
  = Returned Subscription_EMPTY (set_socket (API_URL s) s)
      [Socket_io (API_URL s); Socket_on (table s);
       Socket_emit "register"
         (JArr [config_json (rethinkdbConfig s);
                JObj (("table", JStr (table s)) :: optional_member "query" (query_ s))]);
       Observer_error subscriber (thrownError s)].
Proof.
  intros Herr Hclosed.
  unfold _subscribe, register, BehaviorSubject_subscribe, Subject_subscribe; run_M.
  by rewrite Hclosed, Herr.
Qed.

(** X14. Subscribing to a collection that can be read and is not stopped
    enrols the subscriber after the observers already there and hands it the
    current snapshot at once, after the socket was opened and the [register]
    message sent; the snapshot is unchanged, and the snapshot of the next
    insert reaches the subscriber. *)
Theorem subscribe_replays_latest s subscriber :
  readable s → isStopped s = false →
  let r := _subscribe subscriber s in
  (∃ payload,
     log_of r = [Socket_io (API_URL s); Socket_on (table s);
                 Socket_emit "register" payload;
                 Observer_next subscriber (_value s)])
  ∧ observers (state_of r) = observers s ++ [subscriber]
  ∧ _value (state_of r) = _value s
  ∧ socket (state_of r) = Some (API_URL s)
  ∧ readable (state_of r)
  ∧ (∀ v, Observer_next subscriber ([v] ++ _value s)
          ∈ log_of (socketDataHandler (Inserted v) (state_of r))).
Proof.
  intros Hs Hstopped r. subst r. rewrite _subscribe_open by done; simpl.
  split_and!; [eauto | done | done | done | done |].
  intros v. rewrite socketDataHandler_Inserted by done; simpl.
  unfold published; simpl. rewrite Hstopped.
  apply list_elem_of_fmap. exists subscriber. split; [done|].
  apply elem_of_app. right. left.
Qed.

Lemma subscribe_replays_latest_witness :
  let s := feed [Inserted sample_a1] sample_live in
  readable s
  ∧ observers (exec (_subscribe 1) s) = [0; 1]
  ∧ Observer_next 1 [sample_b1; sample_a1]
    ∈ log_of (socketDataHandler (Inserted sample_b1) (exec (_subscribe 1) s)).
Proof.
  intros s.
  assert (Hs : readable s) by done.
  pose proof (subscribe_replays_latest s 1 Hs eq_refl) as (_ & Hobs & _ & _ & _ & Hnext).
  split_and!; [exact Hs | exact Hobs | exact (Hnext sample_b1)].
Defined.

Lemma subscribe_all_open subscribers : ∀ s,
  readable s → isStopped s = false →
  ∃ log,
    subscribe_all subscribers s
    = Returned ()
        (if subscribers is [] then s
         else set_observers (observers s ++ subscribers) (set_socket (API_URL s) s))
        log
    ∧ sockets_opened log = replicate (length subscribers) (API_URL s)
    ∧ (∀ o value, Observer_next o value ∈ log ↔ o ∈ subscribers ∧ value = _value s)
    ∧ (∀ o e, Observer_error o e ∉ log).
Proof.
  induction subscribers as [|subscriber subscribers IH]; intros s Hs Hstopped.
  - exists []. split_and!; [done | done | | ].
    + intros o value. rewrite elem_of_nil. split; [done | by intros [?%elem_of_nil _]].
    + intros o e. apply not_elem_of_nil.
  - simpl. unfold mbind, M_bind. rewrite _subscribe_open by done.
    set (s1 := set_observers (observers s ++ [subscriber]) (set_socket (API_URL s) s)).
    destruct (IH s1) as (log & -> & Hsockets & Hnext & Herror); [done | done |].
    simpl. eexists. split; [|split_and!].
    + f_equal.
      destruct subscribers as [|o' subscribers]; [done|].
      subst s1; unfold set_observers, set_socket; simpl. by rewrite <- app_assoc.
    + simpl. by rewrite Hsockets.
    + intros o value. rewrite !elem_of_cons, Hnext. subst s1; simpl.
      split.
      * intros [?|[?|[?|[[= -> ->]|[? ->]]]]]; try done; auto.
      * intros [[->|?] ->]; auto 10.
    + intros o e. rewrite !not_elem_of_cons. split_and!; [done.. | apply Herror].
Qed.

(** X15. Each subscription opens its own socket: subscribing [n] observers
    in turn to a collection that can be read and is not stopped opens [n]
    sockets on the base address, enrols the observers in their order behind
    those already there, hands each of them the current snapshot and nobody
    anything else, and leaves the snapshot as it was. *)
Theorem subscribe_all_sockets s subscribers :
  readable s → isStopped s = false →
  let r := subscribe_all subscribers s in
  sockets_opened (log_of r) = replicate (length subscribers) (API_URL s)
  ∧ observers (state_of r) = observers s ++ subscribers
  ∧ _value (state_of r) = _value s
  ∧ (∀ o value, Observer_next o value ∈ log_of r ↔ o ∈ subscribers ∧ value = _value s)
  ∧ (∀ o e, Observer_error o e ∉ log_of r).
Proof.
  intros Hs Hstopped r. subst r.
  destruct (subscribe_all_open subscribers s Hs Hstopped)
    as (log & -> & Hsockets & Hnext & Herror); simpl.
  split_and!; [done | | | done | done].
  - destruct subscribers; [by rewrite app_nil_r | done].
  - by destruct subscribers.
Qed.

Lemma subscribe_all_sockets_witness :
  readable sample_new
  ∧ sockets_opened (log_of (subscribe_all [0; 1; 2] sample_new))
    = replicate 3 "http://localhost:3200"
  ∧ observers (exec (subscribe_all [0; 1; 2]) sample_new) = [0; 1; 2].
Proof.
  assert (Hs : readable sample_new) by done.
  pose proof (subscribe_all_sockets sample_new [0; 1; 2] Hs eq_refl)
    as (Hsockets & Hobs & _).
  split_and!; [exact Hs | exact Hsockets | exact Hobs].
Defined.

Lemma member_config_json c :
  member "database" (config_json c) = Some (JStr (database c))
  ∧ member "api_key" (config_json c) = Some (JStr (api_key c))
  ∧ member "host" (config_json c) = JStr <$> host c
  ∧ member "port" (config_json c) = JStr <$> port c.
Proof. unfold config_json. by destruct (host c), (port c). Qed.

(** X16. Subscribing to a collection that is not closed sends, before
    anything reaches the subscriber, one [register] message on a socket just
    opened on the base address and listened to on the channel of the table:
    a pair of the configuration, with its database and API key and with the
    host and port it has, and of an object with the table and, exactly when
    the collection has a query, the query. *)
Theorem subscribe_registers s subscriber :
  closed s = false →
  ∃ config payload rest,
    log_of (_subscribe subscriber s)
    = Socket_io (API_URL s) :: Socket_on (table s)
      :: Socket_emit "register" (JArr [config; payload]) :: rest
    ∧ member "database" config = Some (JStr (database (rethinkdbConfig s)))
    ∧ member "api_key" config = Some (JStr (api_key (rethinkdbConfig s)))
    ∧ member "host" config = JStr <$> host (rethinkdbConfig s)
    ∧ member "port" config = JStr <$> port (rethinkdbConfig s)
    ∧ member "table" payload = Some (JStr (table s))
    ∧ member "query" payload = query_ s
    ∧ (∀ eff, eff ∈ rest →
         eff = Observer_next subscriber (_value s)
         ∨ eff = Observer_error subscriber (thrownError s)
         ∨ eff = Observer_complete subscriber).
Proof.
  intros Hclosed.
  destruct (member_config_json (rethinkdbConfig s)) as (Hdb & Hkey & Hhost & Hport).
  exists (config_json (rethinkdbConfig s)),
    (JObj (("table", JStr (table s)) :: optional_member "query" (query_ s))).
  unfold _subscribe, register, BehaviorSubject_subscribe, Subject_subscribe; run_M.
  rewrite Hclosed; simpl.
  destruct (hasError s); simpl; [|destruct (isStopped s); simpl];
    (eexists; split; [reflexivity|]);
    (split_and!; [done | done | done | done | done | by destruct (query_ s) |]);
    intros eff ->%list_elem_of_singleton; auto.
Qed.

Lemma subscribe_registers_witness :
  ∃ config payload rest,
    log_of (_subscribe 1 sample_live)
    = Socket_io "http://localhost:3200" :: Socket_on "myTable"
      :: Socket_emit "register" (JArr [config; payload]) :: rest
    ∧ member "table" payload = Some (JStr "myTable")
    ∧ member "query" payload = None.
Proof.
  destruct (subscribe_registers sample_live 1 eq_refl)
    as (config & payload & rest & Hlog & _ & _ & _ & _ & Htable & Hquery & _).
  exists config, payload, rest. split_and!; [exact Hlog | exact Htable | exact Hquery].
Defined.

(** X17. A subscriber that arrives on a collection that recorded an error
    and is not closed receives that error and nothing else: it is handed no
    snapshot, it is not enrolled among the observers, and the subscription
    it gets is the empty one; the socket is opened and the [register]
    message sent all the same. *)
Theorem subscribe_after_error s subscriber :
  hasError s = true → closed s = false →
  let r := _subscribe subscriber s in
  (∃ payload,
     r = Returned Subscription_EMPTY (set_socket (API_URL s) s)
           [Socket_io (API_URL s); Socket_on (table s);
            Socket_emit "register" payload;
            Observer_error subscriber (thrownError s)])
  ∧ observers (state_of r) = observers s
  ∧ _value (state_of r) = _value s
  ∧ (∀ value, Observer_next subscriber value ∉ log_of r).
Proof.
  intros Herr Hclosed r. subst r. rewrite _subscribe_failed by done; simpl.
  split_and!; [eauto | done | done |].
  intros value. rewrite !not_elem_of_cons. split_and!; [done.. | apply not_elem_of_nil].
Qed.

Lemma subscribe_after_error_witness :
  let s := exec (socketDataHandler (Failed "boom")) sample_live in
  hasError s = true
  ∧ observers (exec (_subscribe 1) s) = []
  ∧ ∀ value, Observer_next 1 value ∉ log_of (_subscribe 1 s).
Proof.
  intros s.
  pose proof (subscribe_after_error s 1 eq_refl eq_refl) as (_ & Hobs & _ & Hnext).
  split_and!; [reflexivity | exact Hobs | exact Hnext].
Defined.

(** ** An update that moves the identifier *)

(** X18. On a collection that can be read, an [Updated old new] whose
    [new] has an identifier held by the snapshot and different from the one
    of [old] always leaves two entities with the identifier of [new]: the
    entity that held it is kept by the filter on [old.id] and [new] is added
    behind it; no entity with the identifier of [old] is left. *)
Theorem updated_moving_id_duplicates s old new :
  readable s →
  id new ∈ ids (_value s) →
  id old ≠ id new →
  let db' := _value (exec (socketDataHandler (Updated old new)) s) in
  ¬ NoDup (ids db')
  ∧ (2 ≤ length (filter (λ object, id object = id new) db'))%nat
  ∧ id old ∉ ids db'.
Proof.
  intros Hs Hin Hne db'.
  assert (Hdb' : db' = filter (λ object, id object ≠ id old) (_value s) ++ [new]).
  { subst db'. unfold exec. rewrite socketDataHandler_readable by done.
    unfold reconcile; simpl.
    rewrite bool_decide_eq_true_2 by by apply matching_nonempty.
    by rewrite next_open by apply Hs. }
  assert (Hkept : id new ∈ ids (filter (λ object, id object ≠ id old) (_value s))).
  { rewrite ids_filter_ne. apply list_elem_of_filter. split; [congruence | done]. }
  rewrite Hdb'. split_and!.
  - unfold ids. rewrite fmap_app. intros (_ & Hdisjoint & _)%NoDup_app.
    apply (Hdisjoint (id new)); [done | left].
  - rewrite filter_app, length_app, filter_cons_True by done; simpl.
    apply matching_nonempty in Hkept. lia.
  - unfold ids. rewrite fmap_app, not_elem_of_app. split.
    + fold (ids (filter (λ object, id object ≠ id old) (_value s))).
      rewrite ids_filter_ne, list_elem_of_filter. by intros [? _].
    + simpl. rewrite list_elem_of_singleton. done.
Qed.

Lemma updated_moving_id_duplicates_witness :
  let s := feed [Inserted sample_a1; Inserted sample_b1] sample_live in
  readable s
  ∧ id sample_b2 ∈ ids (_value s)
  ∧ ¬ NoDup (ids (_value (exec (socketDataHandler (Updated sample_a1 sample_b2)) s))).
Proof.
  intros s.
  assert (Hs : readable s) by done.
  assert (Hin : id sample_b2 ∈ ids (_value s)) by (vm_compute; left).
  assert (Hne : id sample_a1 ≠ id sample_b2) by discriminate.
  split_and!; [exact Hs | exact Hin |].
  exact (proj1 (updated_moving_id_duplicates s sample_a1 sample_b2 Hs Hin Hne)).
Defined.
